(** * CacheLib statistics counters: [cachelib/common/AtomicCounter.h]

    A shallow embedding of the two counter classes of the header,
    [AtomicCounterT<T>] (one [std::atomic<T>] cell) and [TLCounter]
    (per-thread cells behind [util::FastStats<uint64_t>]), and the
    properties of their public operations.

    Unsigned [w]-bit integers are integers of [Z] with the wrap-around of
    every arithmetic operation written out.  Methods are state-passing
    functions on the object; a method that throws returns an [outcome]. *)

From Stdlib Require Import ZArith Lia List String.
From stdpp Require Import gmap.

Local Open Scope Z_scope.

(** ** Unsigned fixed-width integers *)

Module UInt.

Definition modulus (w : N) : Z := 2 ^ Z.of_N w.

(** Conversion of a mathematical integer to the unsigned [w]-bit type. *)
Definition wrap (w : N) (x : Z) : Z := x mod modulus w.

Definition max_value (w : N) : Z := modulus w - 1.

Definition in_range (w : N) (x : Z) : Prop := 0 <= x < modulus w.

End UInt.

(** ** [std::atomic<T>] on one cell

    Every operation is one indivisible step on the cell: it takes the
    cell's content and gives back what the call returns and the new
    content.  The memory order does not change the value computed. *)

Module Atomic.

Section Width.
Variable w : N.

Definition load (cell : Z) : Z := cell.

Definition store (n : Z) (cell : Z) : Z := n.

(** [fetch_add] returns the value held before the addition. *)
Definition fetch_add (n : Z) (cell : Z) : Z * Z :=
  (cell, UInt.wrap w (cell + n)).

Definition fetch_sub (n : Z) (cell : Z) : Z * Z :=
  (cell, UInt.wrap w (cell - n)).

(** Returns the flag, the content of [expected] after the call and the
    new content of the cell. *)
Definition compare_exchange_strong (expected desired : Z) (cell : Z)
  : bool * Z * Z :=
  if cell =? expected then (true, expected, desired)
  else (false, cell, cell).
End Width.

End Atomic.

(** ** [AtomicCounterT<T>] *)

Module AtomicCounterT.

Record t : Type := mk { val_ : Z }.

(** [std::atomic<T> val_{0}] *)
Definition default : t := mk 0.

(** [explicit AtomicCounterT(T init) : val_{init}] *)
Definition init (n : Z) : t := mk n.

(** [AtomicCounterT(const AtomicCounterT& rhs)] *)
Definition copy (rhs : t) : t := mk (Atomic.load (val_ rhs)).

(** [operator=(const AtomicCounterT& rhs)] *)
Definition assign (rhs : t) (c : t) : t :=
  mk (Atomic.store (Atomic.load (val_ rhs)) (val_ c)).

Definition get (c : t) : Z := Atomic.load (val_ c).

Definition set (n : Z) (c : t) : t := mk (Atomic.store n (val_ c)).

Section Width.
Variable w : N.

Definition compare_exchange_strong (expected desired : Z) (c : t)
  : bool * Z * t :=
  let '(ok, expected', cell) :=
    Atomic.compare_exchange_strong expected desired (val_ c) in
  (ok, expected', mk cell).

Definition add_fetch (n : Z) (c : t) : Z * t :=
  let '(old, cell) := Atomic.fetch_add w n (val_ c) in
  (UInt.wrap w (old + n), mk cell).

Definition add (n : Z) (c : t) : t :=
  let '(_, cell) := Atomic.fetch_add w n (val_ c) in mk cell.

Definition sub_fetch (n : Z) (c : t) : Z * t :=
  let '(old, cell) := Atomic.fetch_sub w n (val_ c) in
  (UInt.wrap w (old - n), mk cell).

Definition sub (n : Z) (c : t) : t :=
  let '(_, cell) := Atomic.fetch_sub w n (val_ c) in mk cell.

Definition inc (c : t) : t := add 1 c.

Definition dec (c : t) : t := sub 1 c.

(** The cell holds a value of [T]. *)
Definition wf (c : t) : Prop := UInt.in_range w (val_ c).
End Width.

End AtomicCounterT.

(** [using AtomicCounter = AtomicCounterT<uint64_t>] and
    [using AtomicCounter32 = AtomicCounterT<uint32_t>] *)
Definition AtomicCounter_width : N := 64%N.
Definition AtomicCounter32_width : N := 32%N.

(** A finite sequence of [add] and [sub] calls on one counter.  Each call
    is a single atomic read-modify-write, so every interleaving of calls
    made by several threads is one such sequence. *)
Module Updates.

Inductive update : Type :=
  | Add (n : Z)
  | Sub (n : Z).

Definition apply (w : N) (c : AtomicCounterT.t) (u : update)
  : AtomicCounterT.t :=
  match u with
  | Add n => AtomicCounterT.add w n c
  | Sub n => AtomicCounterT.sub w n c
  end.

Definition run (w : N) (us : list update) (c : AtomicCounterT.t)
  : AtomicCounterT.t :=
  fold_left (apply w) us c.

(** The signed amount a call contributes. *)
Definition delta (u : update) : Z :=
  match u with
  | Add n => n
  | Sub n => - n
  end.

Definition delta_sum (us : list update) : Z :=
  fold_right (fun u acc => delta u + acc) 0 us.

End Updates.

(** ** Counter objects in memory

    Two counter objects are two cells.  Objects live in a store keyed by
    their address, so that a copy and its source can be told apart and a
    write to one is a write to that address only. *)

Module Memory.

Abbreviation addr := positive (only parsing).

Abbreviation store := (gmap positive AtomicCounterT.t) (only parsing).

(** The mutating methods of [AtomicCounterT]. *)
Inductive call : Type :=
  | Set_ (n : Z)
  | Add (n : Z)
  | Sub (n : Z)
  | AddFetch (n : Z)
  | SubFetch (n : Z)
  | Inc
  | Dec
  | CompareExchangeStrong (expected desired : Z).

Definition exec (w : N) (k : call) (c : AtomicCounterT.t)
  : AtomicCounterT.t :=
  match k with
  | Set_ n => AtomicCounterT.set n c
  | Add n => AtomicCounterT.add w n c
  | Sub n => AtomicCounterT.sub w n c
  | AddFetch n => snd (AtomicCounterT.add_fetch w n c)
  | SubFetch n => snd (AtomicCounterT.sub_fetch w n c)
  | Inc => AtomicCounterT.inc w c
  | Dec => AtomicCounterT.dec w c
  | CompareExchangeStrong e d =>
      snd (AtomicCounterT.compare_exchange_strong e d c)
  end.

(** A method call on the object at [a]; [None] when no object lives
    there. *)
Definition call_at (w : N) (a : addr) (k : call) (m : store)
  : option store :=
  match m !! a with
  | Some c => Some (<[a := exec w k c]> m)
  | None => None
  end.

Fixpoint calls_at (w : N) (a : addr) (ks : list call) (m : store)
  : option store :=
  match ks with
  | [] => Some m
  | k :: ks' =>
      match call_at w a k m with
      | Some m' => calls_at w a ks' m'
      | None => None
      end
  end.

Definition get_at (a : addr) (m : store) : option Z :=
  match m !! a with
  | Some c => Some (AtomicCounterT.get c)
  | None => None
  end.

(** [AtomicCounterT b(a)]: the new object gets an address of its own. *)
Definition copy_construct (src : addr) (m : store) : option (addr * store) :=
  match m !! src with
  | Some rhs =>
      let dst := fresh (dom m) in
      Some (dst, <[dst := AtomicCounterT.copy rhs]> m)
  | None => None
  end.

(** [b = a] on two existing objects. *)
Definition copy_assign (dst src : addr) (m : store) : option store :=
  match m !! src, m !! dst with
  | Some rhs, Some c => Some (<[dst := AtomicCounterT.assign rhs c]> m)
  | _, _ => None
  end.

(** The object at [dst] in [m'] is a snapshot of the object at [src] in
    [m] and shares nothing with it: calls on either one from [m'] on all
    complete and leave what [get()] returns on the other as it is. *)
Definition independent_snapshot (w : N) (m : store) (src dst : addr)
    (m' : store) : Prop :=
  get_at dst m' = get_at src m
  /\ get_at src m' = get_at src m
  /\ (forall ks, exists m'',
        calls_at w src ks m' = Some m''
        /\ get_at dst m'' = get_at dst m')
  /\ (forall ks, exists m'',
        calls_at w dst ks m' = Some m''
        /\ get_at src m'' = get_at src m').

End Memory.

(** ** What a call that may throw produces *)

Inductive exception : Type :=
  | runtime_error (what : string).

Inductive outcome (A : Type) : Type :=
  | Returns (a : A)
  | Throws (e : exception).

Arguments Returns {A} a.
Arguments Throws {A} e.

(** ** [util::FastStats<uint64_t>] *)

Module FastStats.

Abbreviation thread := nat (only parsing).

Definition wrap64 (x : Z) : Z := UInt.wrap 64 x.

(** Modelled from the spec: [cachelib/common/FastStats.h] is not part of
    the sources at hand.  The counter owns an initial base value and one
    integer cell per thread that has touched it, keyed by thread
    identity; a cell is never removed, so the cell of a thread that has
    ended stays in the collection. *)
Record t : Type := mk { base : Z; cells : gmap nat Z }.

(** Modelled from the spec: construction from an initial value sets the
    base and leaves the collection of cells empty. *)
Definition init (b : Z) : t := mk b ∅.

(** Modelled from the spec: [tlStats()] gets the calling thread's cell
    and creates it first, holding 0, when the thread had none.  The
    reference it returns is the thread's key; [read] and [write] go
    through it. *)
Definition tlStats (tid : thread) (s : t) : t :=
  match cells s !! tid with
  | Some _ => s
  | None => mk (base s) (<[tid := 0]> (cells s))
  end.

Definition read (tid : thread) (s : t) : Z :=
  match cells s !! tid with
  | Some v => v
  | None => 0
  end.

Definition write (tid : thread) (v : Z) (s : t) : t :=
  mk (base s) (<[tid := v]> (cells s)).

(** Modelled from the spec: [getSnapshot()] sums the base value and every
    thread's cell, in 64-bit unsigned arithmetic. *)
Definition getSnapshot (s : t) : Z :=
  map_fold (fun _ v acc => wrap64 (acc + v)) (base s) (cells s).

(** The exact (unbounded) sum of the cells. *)
Definition cell_sum (s : t) : Z :=
  map_fold (fun _ v acc => acc + v) 0 (cells s).

End FastStats.

(** ** [TLCounter] *)

Module TLCounter.

Import FastStats.

Record t : Type := mk { val_ : FastStats.t }.

(** [TLCounter() = default] with [util::FastStats<uint64_t> val_{}] *)
Definition default : t := mk (FastStats.init 0).

(** [explicit TLCounter(uint64_t init) : val_{init}] *)
Definition init (n : Z) : t := mk (FastStats.init n).

Definition get (c : t) : Z := getSnapshot (val_ c).

(** [val_.tlStats() = n] *)
Definition set (tid : thread) (n : Z) (c : t) : t :=
  let s := tlStats tid (val_ c) in
  mk (write tid n s).

Definition add_fetch (_ : Z) (c : t) : outcome Z * t :=
  (Throws (runtime_error "add_fetch not supported"), c).

(** [val_.tlStats() += n] *)
Definition add (tid : thread) (n : Z) (c : t) : t :=
  let s := tlStats tid (val_ c) in
  mk (write tid (wrap64 (read tid s + n)) s).

Definition sub_fetch (_ : Z) (c : t) : outcome Z * t :=
  (Throws (runtime_error "sub_fetch not supported"), c).

(** [val_.tlStats() -= n] *)
Definition sub (tid : thread) (n : Z) (c : t) : t :=
  let s := tlStats tid (val_ c) in
  mk (write tid (wrap64 (read tid s - n)) s).

(** Prefix [++] and [--] on a [uint64_t]. *)
Definition pre_increment (x : Z) : Z := wrap64 (Z.succ x).
Definition pre_decrement (x : Z) : Z := wrap64 (Z.pred x).

(** [++val_.tlStats()] *)
Definition inc (tid : thread) (c : t) : t :=
  let s := tlStats tid (val_ c) in
  mk (write tid (pre_increment (read tid s)) s).

(** [--val_.tlStats()] *)
Definition dec (tid : thread) (c : t) : t :=
  let s := tlStats tid (val_ c) in
  mk (write tid (pre_decrement (read tid s)) s).

(** The methods other than [get], and a call of one by a thread. *)
Inductive call : Type :=
  | Set_ (n : Z)
  | Add (n : Z)
  | Sub (n : Z)
  | Inc
  | Dec
  | AddFetch (n : Z)
  | SubFetch (n : Z).

Definition exec (tid : thread) (k : call) (c : t) : t :=
  match k with
  | Set_ n => set tid n c
  | Add n => add tid n c
  | Sub n => sub tid n c
  | Inc => inc tid c
  | Dec => dec tid c
  | AddFetch n => snd (add_fetch n c)
  | SubFetch n => snd (sub_fetch n c)
  end.

Definition run (evs : list (thread * call)) (c : t) : t :=
  fold_left (fun c ev => exec (fst ev) (snd ev) c) evs c.

(** The cell of thread [tid], when it exists. *)
Definition cell (tid : thread) (c : t) : option Z := cells (val_ c) !! tid.

(** The base is a [uint64_t]. *)
Definition wf (c : t) : Prop := UInt.in_range 64 (base (val_ c)).

End TLCounter.

(** ** Calls with well-typed arguments, and repeated calls *)

Module Calls.

(** Every argument of type [T] of the call is a value of [T]. *)
Definition args_in_range (w : N) (k : Memory.call) : Prop :=
  match k with
  | Memory.Set_ n => UInt.in_range w n
  | Memory.Add n => UInt.in_range w n
  | Memory.Sub n => UInt.in_range w n
  | Memory.AddFetch n => UInt.in_range w n
  | Memory.SubFetch n => UInt.in_range w n
  | Memory.Inc => True
  | Memory.Dec => True
  | Memory.CompareExchangeStrong e d => UInt.in_range w e /\ UInt.in_range w d
  end.

(** Every counter object of the store holds a value of [T]. *)
Definition store_wf (w : N) (m : gmap positive AtomicCounterT.t) : Prop :=
  forall a c, m !! a = Some c -> AtomicCounterT.wf w c.

(** [k] consecutive [add_fetch(n)] calls on one counter: the values they
    return, in call order, and the counter they leave. *)
Fixpoint add_fetch_n (w : N) (n : Z) (k : nat) (c : AtomicCounterT.t)
  : list Z * AtomicCounterT.t :=
  match k with
  | O => ([], c)
  | S k' =>
      let '(r, c1) := AtomicCounterT.add_fetch w n c in
      let '(rs, c2) := add_fetch_n w n k' c1 in
      (r :: rs, c2)
  end.

End Calls.

(** ** Calls on a [TLCounter] by several threads *)

Module TLTrace.

(** An [add] or [sub] as a [TLCounter] call. *)
Definition of_update (u : Updates.update) : TLCounter.call :=
  match u with
  | Updates.Add n => TLCounter.Add n
  | Updates.Sub n => TLCounter.Sub n
  end.

(** A sequence of [add] and [sub] calls, each made by some thread. *)
Definition lift (tus : list (nat * Updates.update))
  : list (nat * TLCounter.call) :=
  (fun tu => (fst tu, of_update (snd tu))) <$> tus.

(** What a method stores in the calling thread's cell, from the cell's
    content; [None] for the methods that throw. *)
Definition cell_update (k : TLCounter.call) : option (Z -> Z) :=
  match k with
  | TLCounter.Set_ n => Some (fun _ => n)
  | TLCounter.Add n => Some (fun x => FastStats.wrap64 (x + n))
  | TLCounter.Sub n => Some (fun x => FastStats.wrap64 (x - n))
  | TLCounter.Inc => Some TLCounter.pre_increment
  | TLCounter.Dec => Some TLCounter.pre_decrement
  | TLCounter.AddFetch _ => None
  | TLCounter.SubFetch _ => None
  end.

(** Every thread's cell holds a [uint64_t]. *)
Definition cells_wf (c : TLCounter.t) : Prop :=
  forall tid v, TLCounter.cell tid c = Some v -> UInt.in_range 64 v.

(** Every [uint64_t] argument of the call is a [uint64_t]. *)
Definition args_in_range (k : TLCounter.call) : Prop :=
  match k with
  | TLCounter.Set_ n => UInt.in_range 64 n
  | TLCounter.Add n => UInt.in_range 64 n
  | TLCounter.Sub n => UInt.in_range 64 n
  | TLCounter.AddFetch n => UInt.in_range 64 n
  | TLCounter.SubFetch n => UInt.in_range 64 n
  | TLCounter.Inc => True
  | TLCounter.Dec => True
  end.

End TLTrace.

(** * Properties *)

(** ** Wrap-around arithmetic *)

Section UIntFacts.
Import UInt.
Variable w : N.

Lemma modulus_pos : 0 < modulus w.
Proof. unfold modulus. apply Z.pow_pos_nonneg; lia. Qed.

Lemma wrap_in_range x : in_range w (wrap w x).
Proof. unfold in_range, wrap. apply Z.mod_pos_bound, modulus_pos. Qed.

Lemma wrap_small x : in_range w x -> wrap w x = x.
Proof. unfold in_range, wrap. intros H. apply Z.mod_small, H. Qed.

Lemma wrap_wrap x : wrap w (wrap w x) = wrap w x.
Proof. apply wrap_small, wrap_in_range. Qed.

Lemma wrap_add_l x y : wrap w (wrap w x + y) = wrap w (x + y).
Proof. unfold wrap. apply Zplus_mod_idemp_l. Qed.

Lemma wrap_add_r x y : wrap w (x + wrap w y) = wrap w (x + y).
Proof. unfold wrap. apply Zplus_mod_idemp_r. Qed.

Lemma wrap_sub_l x y : wrap w (wrap w x - y) = wrap w (x - y).
Proof. unfold wrap. apply Zminus_mod_idemp_l. Qed.

Lemma wrap_sub_r x y : wrap w (x - wrap w y) = wrap w (x - y).
Proof. unfold wrap. apply Zminus_mod_idemp_r. Qed.

Lemma wrap_modulus_add x : wrap w (max_value w + 1 + x) = wrap w x.
Proof.
  unfold wrap, max_value.
  replace (modulus w - 1 + 1 + x) with (x + 1 * modulus w) by lia.
  apply Z_mod_plus_full.
Qed.

(** A sum that wraps back to its left operand added a multiple of the
    modulus. *)
Lemma wrap_add_fixed v n : in_range w v -> wrap w (v + n) = v -> wrap w n = 0.
Proof.
  unfold in_range, wrap. intros Hv H.
  pose proof (modulus_pos) as Hm.
  rewrite <- (Z.mod_small v (modulus w)) in H at 2 by exact Hv.
  assert (E : n = (v + n) - v) by lia.
  rewrite E, Zminus_mod, H, Z.sub_diag. apply Z.mod_0_l. lia.
Qed.

Lemma wrap_sub_fixed v n : in_range w v -> wrap w (v - n) = v -> wrap w n = 0.
Proof.
  unfold in_range, wrap. intros Hv H.
  pose proof (modulus_pos) as Hm.
  rewrite <- (Z.mod_small v (modulus w)) in H at 2 by exact Hv.
  assert (E : n = v - (v - n)) by lia.
  rewrite E, Zminus_mod, H, Z.sub_diag. apply Z.mod_0_l. lia.
Qed.

End UIntFacts.

(** ** [AtomicCounterT]: single calls *)

Section AtomicCounterFacts.
Import UInt AtomicCounterT.
Variable w : N.

Lemma add_val n c : val_ (add w n c) = wrap w (val_ c + n).
Proof. reflexivity. Qed.

Lemma sub_val n c : val_ (sub w n c) = wrap w (val_ c - n).
Proof. reflexivity. Qed.

Lemma add_wf n c : wf w (add w n c).
Proof. unfold wf. rewrite add_val. apply wrap_in_range. Qed.

Lemma sub_wf n c : wf w (sub w n c).
Proof. unfold wf. rewrite sub_val. apply wrap_in_range. Qed.

Lemma add_fetch_result n c : fst (add_fetch w n c) = wrap w (val_ c + n).
Proof. reflexivity. Qed.

Lemma sub_fetch_result n c : fst (sub_fetch w n c) = wrap w (val_ c - n).
Proof. reflexivity. Qed.

Lemma add_fetch_state n c : snd (add_fetch w n c) = add w n c.
Proof. reflexivity. Qed.

Lemma sub_fetch_state n c : snd (sub_fetch w n c) = sub w n c.
Proof. reflexivity. Qed.

Lemma mk_val c : mk (val_ c) = c.
Proof. destruct c. reflexivity. Qed.

Lemma cas_success e d c :
  get c = e -> compare_exchange_strong e d c = (true, e, mk d).
Proof.
  unfold compare_exchange_strong, Atomic.compare_exchange_strong, get, Atomic.load.
  intros ->. rewrite Z.eqb_refl. reflexivity.
Qed.

Lemma cas_failure e d c :
  get c <> e -> compare_exchange_strong e d c = (false, get c, c).
Proof.
  unfold compare_exchange_strong, Atomic.compare_exchange_strong, get, Atomic.load.
  intros Hne. apply Z.eqb_neq in Hne. rewrite Hne, mk_val. reflexivity.
Qed.

End AtomicCounterFacts.

(** C1: on [AtomicCounterT], [add_fetch(n)] returns the value after the
    update, [v + n] modulo the width, and leaves the cell holding it;
    [sub_fetch(n)] returns and leaves [v - n].  What is returned is the
    post-update value: it differs from the value [v] held before whenever
    [n] is not a multiple of the modulus. *)
Theorem add_fetch_sub_fetch_post_update (w : N) (c : AtomicCounterT.t) (n : Z) :
  (fst (AtomicCounterT.add_fetch w n c) = UInt.wrap w (AtomicCounterT.get c + n)
   /\ AtomicCounterT.get (snd (AtomicCounterT.add_fetch w n c))
      = UInt.wrap w (AtomicCounterT.get c + n))
  /\ (fst (AtomicCounterT.sub_fetch w n c) = UInt.wrap w (AtomicCounterT.get c - n)
      /\ AtomicCounterT.get (snd (AtomicCounterT.sub_fetch w n c))
         = UInt.wrap w (AtomicCounterT.get c - n))
  /\ (AtomicCounterT.wf w c -> UInt.wrap w n <> 0 ->
      fst (AtomicCounterT.add_fetch w n c) <> AtomicCounterT.get c
      /\ fst (AtomicCounterT.sub_fetch w n c) <> AtomicCounterT.get c).
Proof.
  split; [split; reflexivity |]. split; [split; reflexivity |].
  intros Hwf Hn. split.
  - rewrite add_fetch_result. intros E. apply Hn.
    eapply wrap_add_fixed; [exact Hwf | exact E].
  - rewrite sub_fetch_result. intros E. apply Hn.
    eapply wrap_sub_fixed; [exact Hwf | exact E].
Qed.

Lemma add_fetch_sub_fetch_post_update_witness :
  AtomicCounterT.wf 32 (AtomicCounterT.init 4294967295)
  /\ UInt.wrap 32 5 <> 0
  /\ fst (AtomicCounterT.add_fetch 32 5 (AtomicCounterT.init 4294967295)) = 4
  /\ fst (AtomicCounterT.add_fetch 32 5 (AtomicCounterT.init 4294967295))
     <> AtomicCounterT.get (AtomicCounterT.init 4294967295).
Proof.
  assert (Hwf : AtomicCounterT.wf 32 (AtomicCounterT.init 4294967295))
    by (vm_compute; split; [discriminate | reflexivity]).
  assert (Hn : UInt.wrap 32 5 <> 0) by (vm_compute; discriminate).
  destruct (add_fetch_sub_fetch_post_update 32 (AtomicCounterT.init 4294967295) 5)
    as [[Hret _] [_ Hpost]].
  split; [exact Hwf |]. split; [exact Hn |]. split.
  - rewrite Hret. reflexivity.
  - apply (Hpost Hwf Hn).
Defined.

(** C3: [compare_exchange_strong(e, d)] on [AtomicCounterT] returns true
    and stores [d] exactly when the cell holds [e]; otherwise it returns
    false, leaves the cell as it was and writes the cell's value into
    [expected]. *)
Theorem compare_exchange_strong_spec (c : AtomicCounterT.t) (e d : Z) :
  (AtomicCounterT.get c = e ->
     AtomicCounterT.compare_exchange_strong e d c
     = (true, e, AtomicCounterT.mk d))
  /\ (AtomicCounterT.get c <> e ->
     AtomicCounterT.compare_exchange_strong e d c
     = (false, AtomicCounterT.get c, c))
  /\ (fst (fst (AtomicCounterT.compare_exchange_strong e d c)) = true
      <-> AtomicCounterT.get c = e).
Proof.
  split; [apply cas_success |]. split; [apply cas_failure |].
  destruct (Z.eq_dec (AtomicCounterT.get c) e) as [E | E].
  - rewrite (cas_success e d c E). simpl. tauto.
  - rewrite (cas_failure e d c E). simpl. split; [discriminate | tauto].
Qed.

Lemma compare_exchange_strong_spec_witness :
  AtomicCounterT.compare_exchange_strong 7 9 (AtomicCounterT.init 7)
  = (true, 7, AtomicCounterT.init 9)
  /\ AtomicCounterT.compare_exchange_strong 8 9 (AtomicCounterT.init 7)
     = (false, 7, AtomicCounterT.init 7).
Proof.
  split.
  - apply (compare_exchange_strong_spec (AtomicCounterT.init 7) 7 9).
    reflexivity.
  - apply (compare_exchange_strong_spec (AtomicCounterT.init 7) 8 9).
    vm_compute. discriminate.
Defined.

(** ** [AtomicCounterT]: sequences of [add] and [sub] *)

Section UpdateFacts.
Import UInt AtomicCounterT Updates.
Variable w : N.

Lemma apply_val c u : val_ (apply w c u) = wrap w (val_ c + delta u).
Proof. destruct u as [n | n]; simpl; [apply add_val | apply sub_val]. Qed.

Lemma apply_wf c u : wf w (apply w c u).
Proof. destruct u; [apply add_wf | apply sub_wf]. Qed.

Lemma run_wf us c : wf w c -> wf w (run w us c).
Proof.
  revert c. induction us as [| u us IH]; intros c Hc; [exact Hc |].
  apply IH, apply_wf.
Qed.

(** Up to the modulus, a run adds the sum of its deltas. *)
Lemma run_val_wrap us c :
  wrap w (val_ (run w us c)) = wrap w (val_ c + delta_sum us).
Proof.
  revert c. induction us as [| u us IH]; intros c.
  - simpl. f_equal. lia.
  - change (run w (u :: us) c) with (run w us (apply w c u)).
    rewrite IH, apply_val, wrap_add_l. simpl. f_equal. lia.
Qed.

Lemma run_val us c :
  wf w c -> val_ (run w us c) = wrap w (val_ c + delta_sum us).
Proof.
  intros Hc. rewrite <- run_val_wrap. symmetry.
  apply wrap_small, (run_wf us c Hc).
Qed.

Lemma run_val_cons u us c :
  val_ (run w (u :: us) c) = wrap w (val_ c + delta_sum (u :: us)).
Proof.
  change (run w (u :: us) c) with (run w us (apply w c u)).
  rewrite run_val by apply apply_wf.
  rewrite apply_val, wrap_add_l. simpl. f_equal. lia.
Qed.

Lemma delta_sum_perm us us' : Permutation us us' -> delta_sum us = delta_sum us'.
Proof.
  induction 1 as [| u l l' _ IH | u v l | l l' l'' _ IH1 _ IH2]; simpl.
  - reflexivity.
  - rewrite IH. reflexivity.
  - lia.
  - congruence.
Qed.

Lemma run_perm us us' c : Permutation us us' -> run w us c = run w us' c.
Proof.
  intros Hp.
  rewrite <- (mk_val (run w us c)), <- (mk_val (run w us' c)). f_equal.
  destruct us as [| u us].
  - apply Permutation_nil in Hp. subst us'. reflexivity.
  - destruct us' as [| u' us'].
    + symmetry in Hp. apply Permutation_nil in Hp. discriminate.
    + rewrite !run_val_cons, (delta_sum_perm _ _ Hp). reflexivity.
Qed.

End UpdateFacts.

(** C6: for every initial value and every finite sequence of [add] and
    [sub] calls on [AtomicCounterT], the final [get()] is the initial
    value plus the signed sum of the deltas, modulo the width, and every
    reordering of the sequence ends in the same counter. *)
Theorem add_sub_sequence_sum (w : N) (v0 : Z) (us : list Updates.update) :
  UInt.in_range w v0 ->
  AtomicCounterT.get (Updates.run w us (AtomicCounterT.init v0))
  = UInt.wrap w (v0 + Updates.delta_sum us)
  /\ forall us', Permutation us us' ->
       Updates.run w us' (AtomicCounterT.init v0)
       = Updates.run w us (AtomicCounterT.init v0)
       /\ AtomicCounterT.get (Updates.run w us' (AtomicCounterT.init v0))
          = UInt.wrap w (v0 + Updates.delta_sum us).
Proof.
  intros Hv.
  assert (Hget : AtomicCounterT.get (Updates.run w us (AtomicCounterT.init v0))
                 = UInt.wrap w (v0 + Updates.delta_sum us)).
  { apply (run_val w us (AtomicCounterT.init v0)). exact Hv. }
  split; [exact Hget |].
  intros us' Hp. rewrite <- (run_perm w us us' _ Hp).
  split; [reflexivity | exact Hget].
Qed.

Lemma add_sub_sequence_sum_witness :
  UInt.in_range 32 4294967290
  /\ AtomicCounterT.get
       (Updates.run 32 [Updates.Add 10; Updates.Sub 3; Updates.Add 1]
          (AtomicCounterT.init 4294967290)) = 2
  /\ AtomicCounterT.get
       (Updates.run 32 [Updates.Sub 3; Updates.Add 1; Updates.Add 10]
          (AtomicCounterT.init 4294967290)) = 2.
Proof.
  assert (Hv : UInt.in_range 32 4294967290)
    by (vm_compute; split; [discriminate | reflexivity]).
  destruct (add_sub_sequence_sum 32 4294967290
              [Updates.Add 10; Updates.Sub 3; Updates.Add 1] Hv)
    as [Hget Hperm].
  split; [exact Hv |]. split.
  - rewrite Hget. reflexivity.
  - destruct (Hperm [Updates.Sub 3; Updates.Add 1; Updates.Add 10]) as [_ Hget'].
    + apply Permutation_cons_append.
    + rewrite Hget'. reflexivity.
Defined.

(** ** [AtomicCounterT]: copies *)

Section MemoryFacts.
Import Memory.
Variable w : N.

Lemma call_at_frame a k (m m' : store) a' :
  call_at w a k m = Some m' -> a' <> a -> m' !! a' = m !! a'.
Proof.
  unfold call_at. destruct (m !! a) as [c |] eqn:E; [| discriminate].
  intros [= <-] Hne. apply lookup_insert_ne. congruence.
Qed.

Lemma call_at_live a k (m : store) c :
  m !! a = Some c -> call_at w a k m = Some (<[a := exec w k c]> m).
Proof. unfold call_at. intros ->. reflexivity. Qed.

(** Calls on a live object all complete, keep it live and touch no other
    address. *)
Lemma calls_at_frame a ks : forall (m : store) c,
  m !! a = Some c ->
  exists m', calls_at w a ks m = Some m'
    /\ is_Some (m' !! a)
    /\ forall a', a' <> a -> m' !! a' = m !! a'.
Proof.
  induction ks as [| k ks IH]; intros m c Hc; simpl.
  - exists m. rewrite Hc. eauto.
  - rewrite (call_at_live a k m c Hc).
    destruct (IH (<[a := exec w k c]> m) (exec w k c)) as (m' & Hrun & Hlive & Hfr).
    { apply lookup_insert_eq. }
    exists m'. split; [exact Hrun |]. split; [exact Hlive |].
    intros a' Hne. rewrite (Hfr a' Hne). apply lookup_insert_ne. congruence.
Qed.

Lemma get_at_frame a (m m' : store) :
  m' !! a = m !! a -> get_at a m' = get_at a m.
Proof. unfold get_at. intros ->. reflexivity. Qed.

(** Two distinct live objects are independent. *)
Lemma distinct_independent (m m' : store) src dst rhs c :
  dst <> src ->
  m !! src = Some rhs ->
  m' !! src = Some rhs ->
  m' !! dst = Some c ->
  AtomicCounterT.get c = AtomicCounterT.get rhs ->
  independent_snapshot w m src dst m'.
Proof.
  intros Hne Hsrc Hsrc' Hdst Hsnap. unfold independent_snapshot.
  split. { unfold get_at. rewrite Hdst, Hsrc, Hsnap. reflexivity. }
  split. { apply get_at_frame. congruence. }
  split; intros ks.
  - destruct (calls_at_frame src ks m' rhs Hsrc') as (m'' & Hrun & _ & Hfr).
    exists m''. split; [exact Hrun |]. apply get_at_frame, Hfr, Hne.
  - destruct (calls_at_frame dst ks m' c Hdst) as (m'' & Hrun & _ & Hfr).
    exists m''. split; [exact Hrun |]. apply get_at_frame, Hfr. congruence.
Qed.

Lemma fresh_unused (m : store) : m !! fresh (dom m) = None.
Proof. apply not_elem_of_dom, is_fresh. Qed.

End MemoryFacts.

(** C7: copying an [AtomicCounterT], by copy construction or by copy
    assignment, gives a cell of its own holding the source's value at the
    time of the copy: whatever is then called on the original leaves the
    copy's [get()] as it is, and whatever is called on the copy leaves the
    original's [get()] as it is. *)
Theorem copy_is_independent_snapshot (w : N)
    (m : gmap positive AtomicCounterT.t) (src : positive)
    (rhs : AtomicCounterT.t) :
  m !! src = Some rhs ->
  (exists dst m',
      Memory.copy_construct src m = Some (dst, m')
      /\ dst <> src
      /\ m !! dst = None
      /\ Memory.independent_snapshot w m src dst m')
  /\ (forall dst c, dst <> src -> m !! dst = Some c ->
      exists m',
        Memory.copy_assign dst src m = Some m'
        /\ Memory.independent_snapshot w m src dst m').
Proof.
  intros Hsrc. split.
  - exists (fresh (dom m)), (<[fresh (dom m) := AtomicCounterT.copy rhs]> m).
    pose proof (fresh_unused m) as Hfresh.
    assert (Hne : fresh (dom m) <> src) by congruence.
    split. { unfold Memory.copy_construct. rewrite Hsrc. reflexivity. }
    split; [exact Hne |]. split; [exact Hfresh |].
    apply (distinct_independent w m _ src _ rhs (AtomicCounterT.copy rhs));
      try done.
    + rewrite lookup_insert_ne; done.
    + apply lookup_insert_eq.
  - intros dst c Hne Hdst.
    exists (<[dst := AtomicCounterT.assign rhs c]> m).
    split. { unfold Memory.copy_assign. rewrite Hsrc, Hdst. reflexivity. }
    apply (distinct_independent w m _ src _ rhs (AtomicCounterT.assign rhs c));
      try done.
    + rewrite lookup_insert_ne; done.
    + apply lookup_insert_eq.
Qed.

(** ** [FastStats]: the snapshot is the wrapped sum *)

Section FastStatsFacts.
Import UInt FastStats.
Implicit Types (m : gmap nat Z) (s : FastStats.t).

Lemma wrap64_in_range x : in_range 64 (wrap64 x).
Proof. apply wrap_in_range. Qed.

Lemma sum_insert_fresh m i v :
  m !! i = None ->
  map_fold (fun _ x acc => acc + x) 0 (<[i := v]> m)
  = map_fold (fun _ x acc => acc + x) 0 m + v.
Proof.
  intros Hi. apply (map_fold_insert_L (fun _ x acc => acc + x)); [| exact Hi].
  intros. lia.
Qed.

Lemma sum_insert m i v :
  map_fold (fun _ x acc => acc + x) 0 (<[i := v]> m)
  = map_fold (fun _ x acc => acc + x) 0 m - default 0 (m !! i) + v.
Proof.
  destruct (m !! i) as [x |] eqn:Hi; simpl.
  - rewrite <- (insert_delete_eq m i v).
    rewrite sum_insert_fresh by apply lookup_delete_eq.
    rewrite (map_fold_delete_L (fun _ x acc => acc + x) 0 i x m); [lia | | exact Hi].
    intros. lia.
  - rewrite sum_insert_fresh by exact Hi. lia.
Qed.

Lemma snapshot_fold_wrap b m :
  wrap64 (map_fold (fun _ v acc => wrap64 (acc + v)) b m)
  = wrap64 (b + map_fold (fun _ v acc => acc + v) 0 m).
Proof.
  induction m as [| i x m Hi IH] using map_ind.
  - rewrite !map_fold_empty. f_equal. lia.
  - rewrite sum_insert_fresh by exact Hi.
    rewrite (map_fold_insert_L (fun _ v acc => wrap64 (acc + v))); [| | exact Hi].
    + unfold wrap64 in *. rewrite wrap_wrap, <- wrap_add_l, IH, wrap_add_l.
      f_equal. lia.
    + intros. unfold wrap64. rewrite !wrap_add_l. f_equal. lia.
Qed.

Lemma snapshot_fold_in_range b m :
  in_range 64 b ->
  in_range 64 (map_fold (fun _ v acc => wrap64 (acc + v)) b m).
Proof.
  intros Hb.
  apply (map_fold_weak_ind (fun r _ => in_range 64 r)); [exact Hb |].
  intros. apply wrap64_in_range.
Qed.

Lemma getSnapshot_sum s :
  in_range 64 (base s) -> getSnapshot s = wrap64 (base s + cell_sum s).
Proof.
  intros Hb. unfold getSnapshot, cell_sum.
  rewrite <- snapshot_fold_wrap. symmetry.
  apply wrap_small, snapshot_fold_in_range, Hb.
Qed.

Lemma read_default tid s : read tid s = default 0 (cells s !! tid).
Proof. unfold read. destruct (cells s !! tid); reflexivity. Qed.

Lemma tlStats_base tid s : base (tlStats tid s) = base s.
Proof. unfold tlStats. destruct (cells s !! tid); reflexivity. Qed.

Lemma tlStats_read tid s : read tid (tlStats tid s) = read tid s.
Proof.
  unfold tlStats, read. destruct (cells s !! tid) as [v |] eqn:E; simpl.
  - rewrite E. reflexivity.
  - rewrite lookup_insert_eq. reflexivity.
Qed.

Lemma tlStats_cell_sum tid s : cell_sum (tlStats tid s) = cell_sum s.
Proof.
  unfold tlStats, cell_sum. destruct (cells s !! tid) as [v |] eqn:E; simpl.
  - reflexivity.
  - rewrite sum_insert_fresh by exact E. lia.
Qed.

Lemma tlStats_other tid tid' s :
  tid' <> tid -> cells (tlStats tid s) !! tid' = cells s !! tid'.
Proof.
  intros Hne. unfold tlStats. destruct (cells s !! tid); simpl; [reflexivity |].
  apply lookup_insert_ne. congruence.
Qed.

Lemma tlStats_live tid s : is_Some (cells (tlStats tid s) !! tid).
Proof.
  unfold tlStats. destruct (cells s !! tid) as [v |] eqn:E; simpl.
  - rewrite E. eauto.
  - rewrite lookup_insert_eq. eauto.
Qed.

Lemma write_cell_sum tid v s :
  cell_sum (write tid v s) = cell_sum s - read tid s + v.
Proof. unfold cell_sum, write. simpl. rewrite sum_insert, read_default. reflexivity. Qed.

(** Storing [v] through the reference [tlStats()] returned. *)
Lemma write_tlStats_cell_sum tid v s :
  cell_sum (write tid v (tlStats tid s)) = cell_sum s - read tid s + v.
Proof. rewrite write_cell_sum, tlStats_cell_sum, tlStats_read. reflexivity. Qed.

Lemma write_tlStats_cells tid v s :
  cells (write tid v (tlStats tid s)) = <[tid := v]> (cells s).
Proof.
  unfold write, tlStats. destruct (cells s !! tid); simpl; [reflexivity |].
  apply insert_insert_eq.
Qed.

End FastStatsFacts.

(** ** [TLCounter]: effect of each method *)

Section TLCounterFacts.
Import UInt FastStats TLCounter.
Implicit Types (c : TLCounter.t) (tid : nat).

Lemma set_cells tid n c :
  cells (val_ (set tid n c)) = <[tid := n]> (cells (val_ c)).
Proof. apply write_tlStats_cells. Qed.

Lemma add_cells tid n c :
  cells (val_ (add tid n c))
  = <[tid := wrap64 (read tid (val_ c) + n)]> (cells (val_ c)).
Proof. unfold add. cbn [val_]. rewrite write_tlStats_cells, tlStats_read. reflexivity. Qed.

Lemma sub_cells tid n c :
  cells (val_ (sub tid n c))
  = <[tid := wrap64 (read tid (val_ c) - n)]> (cells (val_ c)).
Proof. unfold sub. cbn [val_]. rewrite write_tlStats_cells, tlStats_read. reflexivity. Qed.

Lemma inc_is_add tid c : inc tid c = add tid 1 c.
Proof. reflexivity. Qed.

Lemma dec_is_sub tid c : dec tid c = sub tid 1 c.
Proof. reflexivity. Qed.

Lemma exec_base tid k c : base (val_ (exec tid k c)) = base (val_ c).
Proof. destruct k; simpl; try apply tlStats_base; reflexivity. Qed.

Lemma exec_wf tid k c : wf c -> wf (exec tid k c).
Proof. unfold wf. rewrite exec_base. trivial. Qed.

(** No method removes a cell. *)
Lemma exec_persist tid k c tid' :
  is_Some (cell tid' c) -> is_Some (cell tid' (exec tid k c)).
Proof.
  unfold cell. intros Hlive.
  assert (Hw : forall v,
    is_Some (cells (write tid v (tlStats tid (val_ c))) !! tid')).
  { intros v. rewrite write_tlStats_cells.
    destruct (decide (tid = tid')) as [-> | Hne].
    - rewrite lookup_insert_eq. eauto.
    - rewrite lookup_insert_ne by exact Hne. exact Hlive. }
  destruct k; simpl; try apply Hw; exact Hlive.
Qed.

Lemma run_invariant evs : forall c,
  base (val_ (run evs c)) = base (val_ c)
  /\ forall tid, is_Some (cell tid c) -> is_Some (cell tid (run evs c)).
Proof.
  induction evs as [| [tid k] evs IH]; intros c; [split; trivial |].
  change (run ((tid, k) :: evs) c) with (run evs (exec tid k c)).
  destruct (IH (exec tid k c)) as [Hb Hp]. split.
  - rewrite Hb. apply exec_base.
  - intros tid' Hlive. apply Hp, exec_persist, Hlive.
Qed.

Lemma get_sum c : wf c -> get c = wrap64 (base (val_ c) + cell_sum (val_ c)).
Proof. apply getSnapshot_sum. Qed.

Lemma get_init b : get (init b) = b.
Proof. unfold get, init, FastStats.init, getSnapshot. simpl. apply map_fold_empty. Qed.

Lemma get_write tid v c :
  wf c ->
  get (mk (write tid v (tlStats tid (val_ c))))
  = wrap64 (base (val_ c) + cell_sum (val_ c) - read tid (val_ c) + v).
Proof.
  intros Hc. rewrite get_sum.
  - simpl. rewrite write_tlStats_cell_sum, tlStats_base. apply (f_equal (wrap 64)). lia.
  - unfold wf. simpl. rewrite tlStats_base. exact Hc.
Qed.

Lemma get_set tid n c :
  wf c -> get (set tid n c) = wrap64 (get c - read tid (val_ c) + n).
Proof.
  intros Hc. unfold set. rewrite get_write, (get_sum c) by exact Hc.
  unfold wrap64.
  replace (wrap 64 (base (val_ c) + cell_sum (val_ c)) - read tid (val_ c) + n)
    with (wrap 64 (base (val_ c) + cell_sum (val_ c)) + (n - read tid (val_ c)))
    by lia.
  rewrite wrap_add_l. apply (f_equal (wrap 64)). lia.
Qed.

Lemma get_add tid n c : wf c -> get (add tid n c) = wrap64 (get c + n).
Proof.
  intros Hc. unfold add. rewrite get_write, (get_sum c) by exact Hc.
  unfold wrap64. rewrite tlStats_read, wrap_add_r, wrap_add_l.
  apply (f_equal (wrap 64)). lia.
Qed.

Lemma get_sub tid n c : wf c -> get (sub tid n c) = wrap64 (get c - n).
Proof.
  intros Hc. unfold sub. rewrite get_write, (get_sum c) by exact Hc.
  unfold wrap64. rewrite tlStats_read, wrap_add_r, wrap_sub_l.
  apply (f_equal (wrap 64)). lia.
Qed.

Lemma init_wf b : in_range 64 b -> wf (init b).
Proof. trivial. Qed.

(** When no other thread has a cell, the cells after [set] are the
    caller's alone. *)
Lemma set_cells_alone tid n c :
  (forall tid', tid' <> tid -> cell tid' c = None) ->
  cells (val_ (set tid n c)) = {[tid := n]}.
Proof.
  intros Halone. rewrite set_cells. apply map_eq. intros j.
  destruct (decide (tid = j)) as [-> | Hne].
  - rewrite lookup_insert_eq, lookup_singleton_eq. reflexivity.
  - rewrite lookup_insert_ne, lookup_singleton_ne by exact Hne.
    apply Halone. congruence.
Qed.

End TLCounterFacts.

(** ** [TLCounter]: the claims *)

(** C2: on [TLCounter], [add_fetch(n)] and [sub_fetch(n)] throw for every
    counter state and every argument; neither ever returns a number. *)
Theorem tlcounter_fetch_always_throws (n : Z) (c : TLCounter.t) :
  (fst (TLCounter.add_fetch n c)
   = Throws (runtime_error "add_fetch not supported")
   /\ forall v, fst (TLCounter.add_fetch n c) <> Returns v)
  /\ (fst (TLCounter.sub_fetch n c)
      = Throws (runtime_error "sub_fetch not supported")
      /\ forall v, fst (TLCounter.sub_fetch n c) <> Returns v).
Proof. repeat split; intros v; discriminate. Qed.

(** C10: a throwing [add_fetch] or [sub_fetch] on [TLCounter] leaves the
    counter exactly as it was, base and every thread's cell, so [get()]
    returns the same value after the call as before it; what the call
    produces does not depend on the counter's state. *)
Theorem tlcounter_fetch_leaves_state (n : Z) (c : TLCounter.t) :
  (snd (TLCounter.add_fetch n c) = c
   /\ TLCounter.get (snd (TLCounter.add_fetch n c)) = TLCounter.get c
   /\ forall n' c', fst (TLCounter.add_fetch n' c') = fst (TLCounter.add_fetch n c))
  /\ (snd (TLCounter.sub_fetch n c) = c
      /\ TLCounter.get (snd (TLCounter.sub_fetch n c)) = TLCounter.get c
      /\ forall n' c', fst (TLCounter.sub_fetch n' c') = fst (TLCounter.sub_fetch n c)).
Proof. repeat split. Qed.

(** C4: [get()] on [TLCounter] is the base plus the sum of every thread's
    cell, in 64-bit arithmetic.  No call changes the base or removes a
    cell, so this holds after every sequence of calls; [add(n)] by any
    thread moves [get()] by [n].  After thread A calls [add(5)] and thread
    B calls [add(3)] on a fresh counter, in either order, the two cells
    hold 5 and 3 and [get()] is the base plus 8. *)
Theorem tlcounter_get_base_plus_cells :
  (forall c, TLCounter.wf c ->
     TLCounter.get c
     = FastStats.wrap64 (FastStats.base (TLCounter.val_ c)
                         + FastStats.cell_sum (TLCounter.val_ c)))
  /\ (forall evs c, TLCounter.wf c ->
        FastStats.base (TLCounter.val_ (TLCounter.run evs c))
        = FastStats.base (TLCounter.val_ c)
        /\ (forall tid, is_Some (TLCounter.cell tid c) ->
              is_Some (TLCounter.cell tid (TLCounter.run evs c)))
        /\ TLCounter.get (TLCounter.run evs c)
           = FastStats.wrap64
               (FastStats.base (TLCounter.val_ c)
                + FastStats.cell_sum (TLCounter.val_ (TLCounter.run evs c))))
  /\ (forall tid n c, TLCounter.wf c ->
        TLCounter.get (TLCounter.add tid n c)
        = FastStats.wrap64 (TLCounter.get c + n))
  /\ (forall (A B : nat) b, A <> B -> UInt.in_range 64 b ->
        let ab := TLCounter.add B 3 (TLCounter.add A 5 (TLCounter.init b)) in
        let ba := TLCounter.add A 5 (TLCounter.add B 3 (TLCounter.init b)) in
        TLCounter.get ab = FastStats.wrap64 (b + 8)
        /\ TLCounter.get ba = FastStats.wrap64 (b + 8)
        /\ TLCounter.cell A ab = Some 5 /\ TLCounter.cell B ab = Some 3
        /\ TLCounter.cell A ba = Some 5 /\ TLCounter.cell B ba = Some 3
        /\ (b + 8 < UInt.modulus 64 ->
            TLCounter.get ab = b + 8 /\ TLCounter.get ba = b + 8)).
Proof.
  split; [exact get_sum |]. split.
  { intros evs c Hc. destruct (run_invariant evs c) as [Hb Hp].
    split; [exact Hb |]. split; [exact Hp |].
    rewrite <- Hb. apply get_sum. unfold TLCounter.wf. rewrite Hb. exact Hc. }
  split; [exact get_add |].
  intros A B b Hne Hb ab ba.
  assert (Hwf : TLCounter.wf (TLCounter.init b)) by exact Hb.
  assert (Hab : TLCounter.get ab = FastStats.wrap64 (b + 8)).
  { unfold ab. rewrite !get_add, get_init; try exact Hwf.
    unfold FastStats.wrap64. rewrite wrap_add_l.
    apply (f_equal (UInt.wrap 64)). lia. }
  assert (Hba : TLCounter.get ba = FastStats.wrap64 (b + 8)).
  { unfold ba. rewrite !get_add, get_init; try exact Hwf.
    unfold FastStats.wrap64. rewrite wrap_add_l.
    apply (f_equal (UInt.wrap 64)). lia. }
  assert (Hcells : forall (X Y : nat) x y, X <> Y ->
            TLCounter.cell X
              (TLCounter.add Y y (TLCounter.add X x (TLCounter.init b)))
            = Some (FastStats.wrap64 (0 + x))
            /\ TLCounter.cell Y
              (TLCounter.add Y y (TLCounter.add X x (TLCounter.init b)))
            = Some (FastStats.wrap64 (0 + y))).
  { intros X Y x y HXY. unfold TLCounter.cell.
    rewrite add_cells. split.
    - rewrite lookup_insert_ne by congruence.
      rewrite add_cells, lookup_insert_eq, read_default. reflexivity.
    - rewrite lookup_insert_eq, read_default, add_cells.
      rewrite lookup_insert_ne by exact HXY. reflexivity. }
  destruct (Hcells A B 5 3 Hne) as [HA HB].
  destruct (Hcells B A 3 5 (not_eq_sym Hne)) as [HB' HA'].
  repeat split; try assumption.
  - rewrite Hab. apply wrap_small. unfold UInt.in_range in *. lia.
  - rewrite Hba. apply wrap_small. unfold UInt.in_range in *. lia.
Qed.

Lemma tlcounter_get_base_plus_cells_witness :
  0%nat <> 1%nat
  /\ UInt.in_range 64 18446744073709551613
  /\ TLCounter.get
       (TLCounter.add 1 3 (TLCounter.add 0 5 (TLCounter.init 18446744073709551613)))
     = 5
  /\ TLCounter.get (TLCounter.add 1 3 (TLCounter.add 0 5 (TLCounter.init 10)))
     = 18.
Proof.
  assert (Hne : 0%nat <> 1%nat) by discriminate.
  assert (Hhi : UInt.in_range 64 18446744073709551613)
    by (vm_compute; split; [discriminate | reflexivity]).
  assert (Hlo : UInt.in_range 64 10)
    by (vm_compute; split; [discriminate | reflexivity]).
  destruct tlcounter_get_base_plus_cells as (_ & _ & _ & Hscenario).
  split; [exact Hne |]. split; [exact Hhi |]. split.
  - destruct (Hscenario 0%nat 1%nat 18446744073709551613 Hne Hhi) as [Hab _].
    rewrite Hab. reflexivity.
  - destruct (Hscenario 0%nat 1%nat 10 Hne Hlo) as (_ & _ & _ & _ & _ & _ & Hexact).
    apply Hexact. reflexivity.
Defined.

(** C5: [set(n)] on [TLCounter] stores [n] in the calling thread's cell
    and changes neither the base nor any other thread's cell.  When no
    other thread has a cell, [get()] afterwards is the base plus [n]; in
    general [get()] moves by [n] minus the caller's old cell, so the total
    need not be [n]. *)
Theorem tlcounter_set_one_cell (tid : nat) (n : Z) (c : TLCounter.t) :
  TLCounter.cell tid (TLCounter.set tid n c) = Some n
  /\ (forall tid', tid' <> tid ->
        TLCounter.cell tid' (TLCounter.set tid n c) = TLCounter.cell tid' c)
  /\ FastStats.base (TLCounter.val_ (TLCounter.set tid n c))
     = FastStats.base (TLCounter.val_ c)
  /\ ((forall tid', tid' <> tid -> TLCounter.cell tid' c = None) ->
        TLCounter.get (TLCounter.set tid n c)
        = FastStats.wrap64 (FastStats.base (TLCounter.val_ c) + n)
        /\ (UInt.in_range 64 (FastStats.base (TLCounter.val_ c) + n) ->
            TLCounter.get (TLCounter.set tid n c)
            = FastStats.base (TLCounter.val_ c) + n))
  /\ (TLCounter.wf c ->
        TLCounter.get (TLCounter.set tid n c)
        = FastStats.wrap64
            (TLCounter.get c - FastStats.read tid (TLCounter.val_ c) + n))
  /\ exists c0 tid0 n0,
       TLCounter.wf c0 /\ UInt.in_range 64 n0
       /\ TLCounter.get (TLCounter.set tid0 n0 c0) <> n0.
Proof.
  assert (Hbase : FastStats.base (TLCounter.val_ (TLCounter.set tid n c))
                  = FastStats.base (TLCounter.val_ c))
    by apply (exec_base tid (TLCounter.Set_ n)).
  split. { unfold TLCounter.cell. rewrite set_cells. apply lookup_insert_eq. }
  split. { intros tid' Hne. unfold TLCounter.cell. rewrite set_cells.
           apply lookup_insert_ne. congruence. }
  split; [exact Hbase |].
  split.
  { intros Halone.
    assert (Hget : TLCounter.get (TLCounter.set tid n c)
                   = FastStats.wrap64 (FastStats.base (TLCounter.val_ c) + n)).
    { unfold TLCounter.get, FastStats.getSnapshot.
      rewrite (set_cells_alone tid n c Halone), map_fold_singleton.
      rewrite Hbase. reflexivity. }
    split; [exact Hget |].
    intros Hr. rewrite Hget. apply wrap_small, Hr. }
  split; [apply get_set |].
  exists (TLCounter.add 1 4 (TLCounter.init 1)), 0%nat, 5.
  vm_compute. repeat split; discriminate.
Qed.

Lemma tlcounter_set_one_cell_witness :
  (forall tid', tid' <> 0%nat -> TLCounter.cell tid' (TLCounter.init 1) = None)
  /\ TLCounter.wf (TLCounter.init 1)
  /\ TLCounter.get (TLCounter.set 0 5 (TLCounter.init 1)) = 6.
Proof.
  assert (Halone : forall tid', tid' <> 0%nat ->
            TLCounter.cell tid' (TLCounter.init 1) = None)
    by (intros tid' _; reflexivity).
  assert (Hwf : TLCounter.wf (TLCounter.init 1))
    by (vm_compute; split; [discriminate | reflexivity]).
  split; [exact Halone |]. split; [exact Hwf |].
  destruct (tlcounter_set_one_cell 0%nat 5 (TLCounter.init 1))
    as (_ & _ & _ & Hsolo & _).
  destruct (Hsolo Halone) as [_ Hexact]. apply Hexact.
  vm_compute. split; [discriminate | reflexivity].
Defined.

Lemma copy_is_independent_snapshot_witness :
  ({[1%positive := AtomicCounterT.init 7]} : gmap positive AtomicCounterT.t)
    !! 1%positive = Some (AtomicCounterT.init 7)
  /\ exists dst m',
       Memory.copy_construct 1 {[1%positive := AtomicCounterT.init 7]}
       = Some (dst, m')
       /\ Memory.get_at dst m' = Some 7
       /\ exists m'',
            Memory.calls_at 32 1 [Memory.Add 5; Memory.Set_ 0; Memory.Dec] m'
            = Some m''
            /\ Memory.get_at dst m'' = Some 7.
Proof.
  assert (Hsrc : ({[1%positive := AtomicCounterT.init 7]}
                    : gmap positive AtomicCounterT.t) !! 1%positive
                 = Some (AtomicCounterT.init 7)) by reflexivity.
  split; [exact Hsrc |].
  destruct (copy_is_independent_snapshot 32 _ 1%positive _ Hsrc)
    as [(dst & m' & Hcopy & _ & _ & Hsnap & _ & Horig & _) _].
  exists dst, m'. split; [exact Hcopy |]. split; [exact Hsnap |].
  destruct (Horig [Memory.Add 5; Memory.Set_ 0; Memory.Dec]) as (m'' & Hrun & Hsame).
  exists m''. split; [exact Hrun |]. rewrite Hsame. exact Hsnap.
Defined.

(** ** Both counters *)

(** C8: overflow and underflow are not errors on either counter: [add],
    [sub], [inc] and [dec] are total and leave the value modulo [2^w], on
    [AtomicCounterT] for its width and on [TLCounter] for 64 bits, cell
    and total alike.  A 32-bit counter at its maximum holds 0 after one
    [inc()], and one at 0 holds the maximum after one [dec()]. *)
Theorem counters_wrap_around :
  (forall w n c,
     AtomicCounterT.get (AtomicCounterT.add w n c)
     = (AtomicCounterT.get c + n) mod 2 ^ Z.of_N w
     /\ AtomicCounterT.get (AtomicCounterT.sub w n c)
        = (AtomicCounterT.get c - n) mod 2 ^ Z.of_N w
     /\ AtomicCounterT.wf w (AtomicCounterT.add w n c)
     /\ AtomicCounterT.wf w (AtomicCounterT.sub w n c))
  /\ AtomicCounterT.get
       (AtomicCounterT.inc AtomicCounter32_width
          (AtomicCounterT.init (UInt.max_value 32))) = 0
  /\ AtomicCounterT.get
       (AtomicCounterT.dec AtomicCounter32_width (AtomicCounterT.init 0))
     = UInt.max_value 32
  /\ AtomicCounterT.get
       (AtomicCounterT.inc AtomicCounter_width
          (AtomicCounterT.init (UInt.max_value 64))) = 0
  /\ (forall tid n c,
        TLCounter.cell tid (TLCounter.add tid n c)
        = Some ((FastStats.read tid (TLCounter.val_ c) + n) mod 2 ^ 64)
        /\ TLCounter.cell tid (TLCounter.sub tid n c)
           = Some ((FastStats.read tid (TLCounter.val_ c) - n) mod 2 ^ 64))
  /\ (forall tid n c, TLCounter.wf c ->
        TLCounter.get (TLCounter.add tid n c) = (TLCounter.get c + n) mod 2 ^ 64
        /\ TLCounter.get (TLCounter.sub tid n c)
           = (TLCounter.get c - n) mod 2 ^ 64)
  /\ (forall tid,
        TLCounter.get (TLCounter.inc tid (TLCounter.init (UInt.max_value 64)))
        = 0
        /\ TLCounter.cell tid
             (TLCounter.inc tid
                (TLCounter.set tid (UInt.max_value 64) TLCounter.default))
           = Some 0
        /\ TLCounter.cell tid (TLCounter.dec tid TLCounter.default)
           = Some (UInt.max_value 64))
  /\ (forall w c,
        AtomicCounterT.get (AtomicCounterT.inc w c)
        = (AtomicCounterT.get c + 1) mod 2 ^ Z.of_N w
        /\ AtomicCounterT.get (AtomicCounterT.dec w c)
           = (AtomicCounterT.get c - 1) mod 2 ^ Z.of_N w
        /\ AtomicCounterT.wf w (AtomicCounterT.inc w c)
        /\ AtomicCounterT.wf w (AtomicCounterT.dec w c))
  /\ (forall tid c,
        TLCounter.cell tid (TLCounter.inc tid c)
        = Some ((FastStats.read tid (TLCounter.val_ c) + 1) mod 2 ^ 64)
        /\ TLCounter.cell tid (TLCounter.dec tid c)
           = Some ((FastStats.read tid (TLCounter.val_ c) - 1) mod 2 ^ 64))
  /\ (forall tid c, TLCounter.wf c ->
        TLCounter.get (TLCounter.inc tid c) = (TLCounter.get c + 1) mod 2 ^ 64
        /\ TLCounter.get (TLCounter.dec tid c)
           = (TLCounter.get c - 1) mod 2 ^ 64).
Proof.
  split.
  { intros w n c. split; [reflexivity |]. split; [reflexivity |].
    split; [apply add_wf | apply sub_wf]. }
  split; [reflexivity |]. split; [reflexivity |]. split; [reflexivity |].
  split.
  { intros tid n c. unfold TLCounter.cell.
    rewrite add_cells, sub_cells, !lookup_insert_eq. split; reflexivity. }
  split.
  { intros tid n c Hc. rewrite get_add, get_sub by exact Hc. split; reflexivity. }
  split.
  { intros tid. split.
    { rewrite inc_is_add, get_add, get_init; [reflexivity |].
      vm_compute. split; [discriminate | reflexivity]. }
    unfold TLCounter.cell. split.
    - rewrite inc_is_add, add_cells, lookup_insert_eq, read_default, set_cells.
      rewrite lookup_insert_eq. reflexivity.
    - rewrite dec_is_sub, sub_cells, lookup_insert_eq, read_default. reflexivity. }
  split.
  { intros w c. split; [reflexivity |]. split; [reflexivity |].
    split; [apply add_wf | apply sub_wf]. }
  split.
  { intros tid c. unfold TLCounter.cell.
    rewrite inc_is_add, dec_is_sub, add_cells, sub_cells, !lookup_insert_eq.
    split; reflexivity. }
  intros tid c Hc.
  rewrite inc_is_add, dec_is_sub, get_add, get_sub by exact Hc.
  split; reflexivity.
Qed.

Lemma counters_wrap_around_witness :
  TLCounter.wf (TLCounter.init 18446744073709551615)
  /\ TLCounter.get (TLCounter.add 7 2 (TLCounter.init 18446744073709551615)) = 1
  /\ TLCounter.get (TLCounter.sub 7 2 (TLCounter.init 1))
     = 18446744073709551615
  /\ TLCounter.get (TLCounter.inc 7 (TLCounter.init 18446744073709551615)) = 0
  /\ TLCounter.get (TLCounter.dec 7 (TLCounter.init 0))
     = 18446744073709551615.
Proof.
  assert (Hmax : TLCounter.wf (TLCounter.init 18446744073709551615))
    by (vm_compute; split; [discriminate | reflexivity]).
  assert (Hone : TLCounter.wf (TLCounter.init 1))
    by (vm_compute; split; [discriminate | reflexivity]).
  assert (Hzero : TLCounter.wf (TLCounter.init 0))
    by (vm_compute; split; [discriminate | reflexivity]).
  destruct counters_wrap_around
    as (_ & _ & _ & _ & _ & Htotal & _ & _ & _ & Hstep).
  split; [exact Hmax |]. split; [| split; [| split]].
  - destruct (Htotal 7%nat 2 _ Hmax) as [Hadd _]. rewrite Hadd. reflexivity.
  - destruct (Htotal 7%nat 2 _ Hone) as [_ Hsub]. rewrite Hsub. reflexivity.
  - destruct (Hstep 7%nat _ Hmax) as [Hinc _]. rewrite Hinc. reflexivity.
  - destruct (Hstep 7%nat _ Hzero) as [_ Hdec]. rewrite Hdec. reflexivity.
Defined.

(** C9: on both counters [inc()] is [add(1)] and [dec()] is [sub(1)]:
    they leave the same counter, hence the same result of every later
    [get()].  On [TLCounter] they act on the calling thread's cell and on
    no other. *)
Theorem inc_dec_are_add_sub_one :
  (forall w c,
     AtomicCounterT.inc w c = AtomicCounterT.add w 1 c
     /\ AtomicCounterT.dec w c = AtomicCounterT.sub w 1 c)
  /\ (forall tid c,
        TLCounter.inc tid c = TLCounter.add tid 1 c
        /\ TLCounter.dec tid c = TLCounter.sub tid 1 c)
  /\ (forall tid c,
        TLCounter.cell tid (TLCounter.inc tid c)
        = Some (FastStats.wrap64 (FastStats.read tid (TLCounter.val_ c) + 1))
        /\ TLCounter.cell tid (TLCounter.dec tid c)
           = Some (FastStats.wrap64 (FastStats.read tid (TLCounter.val_ c) - 1)))
  /\ (forall tid tid' c, tid' <> tid ->
        TLCounter.cell tid' (TLCounter.inc tid c) = TLCounter.cell tid' c
        /\ TLCounter.cell tid' (TLCounter.dec tid c) = TLCounter.cell tid' c).
Proof.
  split. { intros w c. split; reflexivity. }
  split. { intros tid c. split; [apply inc_is_add | apply dec_is_sub]. }
  split.
  { intros tid c. unfold TLCounter.cell.
    rewrite inc_is_add, dec_is_sub, add_cells, sub_cells, !lookup_insert_eq.
    split; reflexivity. }
  intros tid tid' c Hne. unfold TLCounter.cell.
  rewrite inc_is_add, dec_is_sub, add_cells, sub_cells.
  rewrite !lookup_insert_ne by congruence. split; reflexivity.
Qed.

Lemma inc_dec_are_add_sub_one_witness :
  1%nat <> 0%nat
  /\ TLCounter.cell 1 (TLCounter.inc 0 (TLCounter.set 1 9 (TLCounter.init 4)))
     = Some 9.
Proof.
  assert (Hne : 1%nat <> 0%nat) by discriminate.
  split; [exact Hne |].
  destruct inc_dec_are_add_sub_one as (_ & _ & _ & Hother).
  destruct (Hother 0%nat 1%nat (TLCounter.set 1 9 (TLCounter.init 4)) Hne)
    as [Hinc _].
  rewrite Hinc. reflexivity.
Defined.

(** ** Concrete runs *)

Example add_fetch_32_wraps :
  AtomicCounterT.add_fetch 32 2 (AtomicCounterT.init 4294967295)
  = (1, AtomicCounterT.init 1).
Proof. reflexivity. Qed.

Example sub_fetch_64_wraps :
  AtomicCounterT.sub_fetch 64 1 AtomicCounterT.default
  = (18446744073709551615, AtomicCounterT.init 18446744073709551615).
Proof. reflexivity. Qed.

Example cas_then_get :
  AtomicCounterT.get
    (snd (AtomicCounterT.compare_exchange_strong 3 8 (AtomicCounterT.init 3)))
  = 8.
Proof. reflexivity. Qed.

Example two_threads_then_get :
  TLCounter.get
    (TLCounter.run [(0%nat, TLCounter.Add 5); (1%nat, TLCounter.Add 3)]
       (TLCounter.init 100)) = 108.
Proof. vm_compute. reflexivity. Qed.

Example set_moves_one_cell :
  TLCounter.get
    (TLCounter.run
       [(0%nat, TLCounter.Add 5); (1%nat, TLCounter.Add 3); (0%nat, TLCounter.Set_ 1)]
       (TLCounter.init 100)) = 104.
Proof. vm_compute. reflexivity. Qed.

Example copy_then_mutate_source :
  match Memory.copy_construct 1 {[1%positive := AtomicCounterT.init 7]} with
  | Some (dst, m) =>
      match Memory.calls_at 64 1 [Memory.Add 5; Memory.Inc] m with
      | Some m' => (Memory.get_at 1 m', Memory.get_at dst m')
      | None => (None, None)
      end
  | None => (None, None)
  end = (Some 13, Some 7).
Proof. vm_compute. reflexivity. Qed.

(** * Further properties of [AtomicCounterT] *)

Section AtomicCounterAlgebra.
Import UInt AtomicCounterT.
Variable w : N.

Lemma counter_eq (c c' : AtomicCounterT.t) : val_ c = val_ c' -> c = c'.
Proof. destruct c, c'. simpl. intros ->. reflexivity. Qed.

Lemma wrap_add_sub v n : wrap w (wrap w (v + n) - n) = wrap w v.
Proof. rewrite wrap_sub_l. apply (f_equal (wrap w)). lia. Qed.

Lemma wrap_sub_add v n : wrap w (wrap w (v - n) + n) = wrap w v.
Proof. rewrite wrap_add_l. apply (f_equal (wrap w)). lia. Qed.

Lemma wrap_period v : wrap w (v + modulus w) = wrap w v.
Proof.
  unfold wrap. replace (v + modulus w) with (v + 1 * modulus w) by lia.
  apply Z_mod_plus_full.
Qed.

(** Two integers less than a modulus apart with the same residue are
    equal. *)
Lemma wrap_inj_window x y :
  - modulus w < x - y < modulus w -> wrap w x = wrap w y -> x = y.
Proof.
  unfold wrap. intros Hd E. pose proof (modulus_pos w) as Hm.
  assert (Hz : (x - y) mod modulus w = 0).
  { rewrite Zminus_mod, E, Z.sub_diag. apply Z.mod_0_l. lia. }
  apply Z.mod_divide in Hz; [| lia]. destruct Hz as [q Hq].
  assert (Hq0 : q = 0).
  { destruct (Z.lt_trichotomy q 0) as [Hneg | [Hz | Hpos]]; [| exact Hz |].
    - assert (q * modulus w <= - modulus w) by nia. lia.
    - assert (modulus w <= q * modulus w) by nia. lia. }
  subst q. lia.
Qed.

Lemma iter_inc_val k c :
  wf w c -> val_ (Nat.iter k (inc w) c) = wrap w (val_ c + Z.of_nat k).
Proof.
  intros Hc. induction k as [| k IH].
  - simpl. rewrite Z.add_0_r. symmetry. apply wrap_small, Hc.
  - change (Nat.iter (S k) (inc w) c) with (add w 1 (Nat.iter k (inc w) c)).
    rewrite add_val, IH, wrap_add_l.
    apply (f_equal (wrap w)). lia.
Qed.

End AtomicCounterAlgebra.

(** X1: on a counter holding a value of [T], [add(n)] followed by
    [sub(n)], and [sub(n)] followed by [add(n)], give back the counter
    as it was, overflow in between or not; [add_fetch(n)] followed by
    [sub_fetch(n)] returns the value held at the start. *)
Theorem add_sub_cancel (w : N) (n : Z) (c : AtomicCounterT.t) :
  AtomicCounterT.wf w c ->
  AtomicCounterT.sub w n (AtomicCounterT.add w n c) = c
  /\ AtomicCounterT.add w n (AtomicCounterT.sub w n c) = c
  /\ fst (AtomicCounterT.sub_fetch w n (snd (AtomicCounterT.add_fetch w n c)))
     = AtomicCounterT.get c.
Proof.
  intros Hc.
  assert (Hv : UInt.wrap w (AtomicCounterT.val_ c) = AtomicCounterT.val_ c)
    by apply wrap_small, Hc.
  split; [| split].
  - apply counter_eq. rewrite sub_val, add_val, wrap_add_sub. exact Hv.
  - apply counter_eq. rewrite add_val, sub_val, wrap_sub_add. exact Hv.
  - rewrite sub_fetch_result, add_fetch_state, add_val, wrap_add_sub. exact Hv.
Qed.

Lemma add_sub_cancel_witness :
  AtomicCounterT.wf 32 (AtomicCounterT.init 4294967290)
  /\ AtomicCounterT.sub 32 100
       (AtomicCounterT.add 32 100 (AtomicCounterT.init 4294967290))
     = AtomicCounterT.init 4294967290.
Proof.
  assert (Hwf : AtomicCounterT.wf 32 (AtomicCounterT.init 4294967290))
    by (vm_compute; split; [discriminate | reflexivity]).
  split; [exact Hwf |].
  apply (add_sub_cancel 32 100 (AtomicCounterT.init 4294967290) Hwf).
Defined.

(** X2: two [add] calls in a row leave the counter that one [add] of the
    sum taken in [T] leaves, and [sub(n)] leaves the counter that [add]
    of the negation of [n] in [T] leaves. *)
Theorem add_add_compose (w : N) (n m : Z) (c : AtomicCounterT.t) :
  AtomicCounterT.add w m (AtomicCounterT.add w n c)
  = AtomicCounterT.add w (UInt.wrap w (n + m)) c
  /\ AtomicCounterT.sub w n c = AtomicCounterT.add w (UInt.wrap w (- n)) c.
Proof.
  split; apply counter_eq.
  - rewrite !add_val, wrap_add_l, wrap_add_r.
    apply (f_equal (UInt.wrap w)). lia.
  - rewrite sub_val, add_val, wrap_add_r.
    apply (f_equal (UInt.wrap w)). lia.
Qed.

(** X3: on a counter holding a value of [T], [k] calls of [inc()] leave
    the start value plus [k] modulo [2^w], so [2^w] calls of [inc()]
    leave the counter as it was. *)
Theorem inc_iterated (w : N) (c : AtomicCounterT.t) :
  AtomicCounterT.wf w c ->
  (forall k : nat,
     AtomicCounterT.get (Nat.iter k (AtomicCounterT.inc w) c)
     = UInt.wrap w (AtomicCounterT.get c + Z.of_nat k))
  /\ Nat.iter (Z.to_nat (UInt.modulus w)) (AtomicCounterT.inc w) c = c.
Proof.
  intros Hc. split.
  - intros k. apply iter_inc_val, Hc.
  - apply counter_eq. rewrite iter_inc_val by exact Hc.
    rewrite Z2Nat.id by (pose proof (modulus_pos w); lia).
    rewrite wrap_period. apply wrap_small, Hc.
Qed.

Lemma inc_iterated_witness :
  AtomicCounterT.wf 32 (AtomicCounterT.init 4294967294)
  /\ AtomicCounterT.get
       (Nat.iter 5 (AtomicCounterT.inc 32) (AtomicCounterT.init 4294967294))
     = 3.
Proof.
  assert (Hwf : AtomicCounterT.wf 32 (AtomicCounterT.init 4294967294))
    by (vm_compute; split; [discriminate | reflexivity]).
  split; [exact Hwf |].
  destruct (inc_iterated 32 (AtomicCounterT.init 4294967294) Hwf) as [Hk _].
  rewrite (Hk 5%nat). reflexivity.
Defined.

(** X4: a [compare_exchange_strong] that fails hands back the cell's
    value in [expected]; retried with that value and no call in between,
    it succeeds and stores [desired]. *)
Theorem cas_retry_succeeds (c : AtomicCounterT.t) (e d : Z) :
  AtomicCounterT.get c <> e ->
  exists e1 c1,
    AtomicCounterT.compare_exchange_strong e d c = (false, e1, c1)
    /\ AtomicCounterT.compare_exchange_strong e1 d c1
       = (true, AtomicCounterT.get c, AtomicCounterT.mk d).
Proof.
  intros Hne. exists (AtomicCounterT.get c), c.
  split; [apply cas_failure, Hne | apply cas_success; reflexivity].
Qed.

Lemma cas_retry_succeeds_witness :
  AtomicCounterT.get (AtomicCounterT.init 7) <> 8
  /\ exists e1 c1,
       AtomicCounterT.compare_exchange_strong 8 9 (AtomicCounterT.init 7)
       = (false, e1, c1)
       /\ AtomicCounterT.compare_exchange_strong e1 9 c1
          = (true, 7, AtomicCounterT.init 9).
Proof.
  assert (Hne : AtomicCounterT.get (AtomicCounterT.init 7) <> 8)
    by (vm_compute; discriminate).
  split; [exact Hne |].
  apply (cas_retry_succeeds (AtomicCounterT.init 7) 8 9 Hne).
Defined.

Section RepeatedAddFetch.
Import UInt AtomicCounterT Calls.
Variable w : N.

Lemma add_fetch_n_succ n k c :
  add_fetch_n w n (S k) c
  = (wrap w (val_ c + n) :: fst (add_fetch_n w n k (add w n c)),
     snd (add_fetch_n w n k (add w n c))).
Proof.
  simpl. destruct (add_fetch_n w n k _) as [rs c2]. reflexivity.
Qed.

Lemma add_fetch_n_results n k : forall c,
  fst (add_fetch_n w n k c)
  = (fun i => wrap w (val_ c + Z.of_nat i * n)) <$> seq 1 k.
Proof.
  induction k as [| k IH]; intros c; [reflexivity |].
  rewrite add_fetch_n_succ. cbn [fst seq fmap list_fmap].
  f_equal.
  - apply (f_equal (wrap w)). lia.
  - rewrite IH, <- (fmap_S_seq 1 k), <- list_fmap_compose.
    apply list_fmap_ext. intros i j _. unfold compose. cbv beta.
    rewrite add_val, wrap_add_l. apply (f_equal (wrap w)). lia.
Qed.

Lemma add_fetch_n_state n k : forall c,
  wf w c ->
  val_ (snd (add_fetch_n w n k c)) = wrap w (val_ c + Z.of_nat k * n).
Proof.
  induction k as [| k IH]; intros c Hc.
  - simpl. rewrite Z.add_0_r. symmetry. apply wrap_small, Hc.
  - rewrite add_fetch_n_succ. cbn [snd].
    rewrite IH by apply add_wf. rewrite add_val, wrap_add_l.
    apply (f_equal (wrap w)). lia.
Qed.

End RepeatedAddFetch.

(** X5: [k] consecutive [add_fetch(1)] calls return the start value plus
    1, 2, ..., [k] modulo [2^w]; as long as [k] is at most [2^w] no two
    of the returned values are equal. *)
Theorem add_fetch_one_distinct (w : N) (k : nat) (c : AtomicCounterT.t) :
  fst (Calls.add_fetch_n w 1 k c)
  = (fun i => UInt.wrap w (AtomicCounterT.get c + Z.of_nat i)) <$> seq 1 k
  /\ (Z.of_nat k <= UInt.modulus w ->
      NoDup (fst (Calls.add_fetch_n w 1 k c))).
Proof.
  assert (Hres : fst (Calls.add_fetch_n w 1 k c)
    = (fun i => UInt.wrap w (AtomicCounterT.get c + Z.of_nat i)) <$> seq 1 k).
  { rewrite add_fetch_n_results. apply list_fmap_ext. intros i j _.
    apply (f_equal (UInt.wrap w)). unfold AtomicCounterT.get, Atomic.load. lia. }
  split; [exact Hres |]. intros Hk. rewrite Hres.
  apply NoDup_fmap_2_strong; [| apply NoDup_seq].
  intros i j Hi Hj E. apply elem_of_seq in Hi, Hj.
  apply wrap_inj_window in E; lia.
Qed.

Lemma add_fetch_one_distinct_witness :
  Z.of_nat 3 <= UInt.modulus 32
  /\ fst (Calls.add_fetch_n 32 1 3 (AtomicCounterT.init 4294967294))
     = [4294967295; 0; 1]
  /\ NoDup (fst (Calls.add_fetch_n 32 1 3 (AtomicCounterT.init 4294967294))).
Proof.
  assert (Hk : Z.of_nat 3 <= UInt.modulus 32) by (vm_compute; discriminate).
  split; [exact Hk |].
  destruct (add_fetch_one_distinct 32 3 (AtomicCounterT.init 4294967294))
    as [Hres Hnd].
  split; [rewrite Hres; reflexivity | exact (Hnd Hk)].
Defined.

(** * Further properties of counters in memory *)

Section StoreFacts.
Import Memory Calls.
Variable w : N.

Lemma exec_wf_args k c :
  AtomicCounterT.wf w c -> args_in_range w k ->
  AtomicCounterT.wf w (exec w k c).
Proof.
  intros Hc Hk. destruct k as [n | n | n | n | n | | | e d]; simpl in *.
  - exact Hk.
  - apply add_wf.
  - apply sub_wf.
  - apply add_wf.
  - apply sub_wf.
  - apply add_wf.
  - apply sub_wf.
  - destruct (Z.eq_dec (AtomicCounterT.get c) e) as [E | E].
    + rewrite (cas_success e d c E). apply Hk.
    + rewrite (cas_failure e d c E). exact Hc.
Qed.

Lemma store_wf_insert (m : store) a c :
  store_wf w m -> AtomicCounterT.wf w c -> store_wf w (<[a := c]> m).
Proof.
  intros Hm Hc a' c' Hlook.
  destruct (decide (a = a')) as [-> | Hne].
  - rewrite lookup_insert_eq in Hlook. congruence.
  - rewrite lookup_insert_ne in Hlook by exact Hne. apply (Hm a' c' Hlook).
Qed.

Lemma assign_value rhs c : AtomicCounterT.assign rhs c = rhs.
Proof. destruct rhs. reflexivity. Qed.

Lemma copy_value rhs : AtomicCounterT.copy rhs = rhs.
Proof. destruct rhs. reflexivity. Qed.

End StoreFacts.

(** X6: when every counter in memory holds a value of [T], it still does
    after any method call with arguments of type [T], after a copy
    construction and after a copy assignment. *)
Theorem store_wf_preserved (w : N) (m : gmap positive AtomicCounterT.t) :
  Calls.store_wf w m ->
  (forall a k m', Calls.args_in_range w k ->
     Memory.call_at w a k m = Some m' -> Calls.store_wf w m')
  /\ (forall src dst m',
        Memory.copy_construct src m = Some (dst, m') -> Calls.store_wf w m')
  /\ (forall dst src m',
        Memory.copy_assign dst src m = Some m' -> Calls.store_wf w m').
Proof.
  intros Hm. split; [| split].
  - intros a k m' Hk. unfold Memory.call_at.
    destruct (m !! a) as [c |] eqn:E; [| discriminate]. intros [= <-].
    apply store_wf_insert; [exact Hm |].
    apply exec_wf_args; [apply (Hm a c E) | exact Hk].
  - intros src dst m'. unfold Memory.copy_construct.
    destruct (m !! src) as [rhs |] eqn:E; [| discriminate]. intros [= <- <-].
    apply store_wf_insert; [exact Hm |]. rewrite copy_value. apply (Hm src rhs E).
  - intros dst src m'. unfold Memory.copy_assign.
    destruct (m !! src) as [rhs |] eqn:E; [| discriminate].
    destruct (m !! dst) as [c |]; [| discriminate]. intros [= <-].
    apply store_wf_insert; [exact Hm |]. rewrite assign_value. apply (Hm src rhs E).
Qed.

Lemma store_wf_preserved_witness :
  Calls.store_wf 32 {[1%positive := AtomicCounterT.init 4294967295]}
  /\ Calls.store_wf 32 {[1%positive := AtomicCounterT.init 0]}.
Proof.
  assert (Hm : Calls.store_wf 32 {[1%positive := AtomicCounterT.init 4294967295]}).
  { intros a c Hlook. apply lookup_singleton_Some in Hlook as [_ <-].
    vm_compute. split; [discriminate | reflexivity]. }
  split; [exact Hm |].
  destruct (store_wf_preserved 32 _ Hm) as [Hcall _].
  apply (Hcall 1%positive Memory.Inc); [exact I | reflexivity].
Defined.

(** X7: assigning a counter to itself changes nothing in memory. *)
Theorem copy_assign_self (m : gmap positive AtomicCounterT.t) (a : positive)
    (c : AtomicCounterT.t) :
  m !! a = Some c -> Memory.copy_assign a a m = Some m.
Proof.
  intros Ha. unfold Memory.copy_assign. rewrite Ha, assign_value.
  f_equal. apply insert_id, Ha.
Qed.

Lemma copy_assign_self_witness :
  Memory.copy_assign 1 1 {[1%positive := AtomicCounterT.init 7]}
  = Some {[1%positive := AtomicCounterT.init 7]}.
Proof.
  apply (copy_assign_self _ 1%positive (AtomicCounterT.init 7)). reflexivity.
Defined.

(** X8: after [b = a], both objects hold the same value, and a second
    [b = a] as well as [a = b] change nothing in memory. *)
Theorem copy_assign_settles (m m' : gmap positive AtomicCounterT.t)
    (dst src : positive) :
  Memory.copy_assign dst src m = Some m' ->
  Memory.get_at dst m' = Memory.get_at src m'
  /\ Memory.get_at src m' = Memory.get_at src m
  /\ Memory.copy_assign dst src m' = Some m'
  /\ Memory.copy_assign src dst m' = Some m'.
Proof.
  unfold Memory.copy_assign at 1.
  destruct (m !! src) as [rhs |] eqn:Hsrc; [| discriminate].
  destruct (m !! dst) as [c |] eqn:Hdst; [| discriminate].
  rewrite assign_value. intros [= <-].
  assert (Hd : <[dst := rhs]> m !! dst = Some rhs) by apply lookup_insert_eq.
  assert (Hs : <[dst := rhs]> m !! src = Some rhs).
  { destruct (decide (dst = src)) as [-> | Hne]; [exact Hd |].
    rewrite lookup_insert_ne by exact Hne. exact Hsrc. }
  unfold Memory.get_at, Memory.copy_assign.
  rewrite Hd, Hs, Hsrc, !assign_value.
  repeat split; f_equal; apply insert_id; assumption.
Qed.

Lemma copy_assign_settles_witness :
  Memory.copy_assign 2 1
    (<[2%positive := AtomicCounterT.init 3]> {[1%positive := AtomicCounterT.init 7]})
  = Some (<[2%positive := AtomicCounterT.init 7]>
            {[1%positive := AtomicCounterT.init 7]})
  /\ Memory.copy_assign 1 2
       (<[2%positive := AtomicCounterT.init 7]>
          {[1%positive := AtomicCounterT.init 7]})
     = Some (<[2%positive := AtomicCounterT.init 7]>
               {[1%positive := AtomicCounterT.init 7]}).
Proof.
  assert (H : Memory.copy_assign 2 1
    (<[2%positive := AtomicCounterT.init 3]> {[1%positive := AtomicCounterT.init 7]})
    = Some (<[2%positive := AtomicCounterT.init 7]>
              {[1%positive := AtomicCounterT.init 7]}))
    by (vm_compute; reflexivity).
  split; [exact H |].
  apply (copy_assign_settles _ _ 2%positive 1%positive H).
Defined.

(** * Further properties of [TLCounter] *)

Section TLCounterAlgebra.
Import UInt FastStats TLCounter TLTrace.
Implicit Types (c : TLCounter.t) (tid : nat).

Lemma tl_eq c c' :
  base (val_ c) = base (val_ c') -> cells (val_ c) = cells (val_ c') -> c = c'.
Proof.
  destruct c as [[b m]], c' as [[b' m']]. simpl. intros -> ->. reflexivity.
Qed.

(** A method that does not throw rewrites the caller's cell and nothing
    else. *)
Lemma exec_cell_update tid k f c :
  cell_update k = Some f ->
  exec tid k c
  = TLCounter.mk
      (FastStats.mk (base (val_ c))
         (<[tid := f (read tid (val_ c))]> (cells (val_ c)))).
Proof.
  intros Hk. apply tl_eq.
  - rewrite exec_base. reflexivity.
  - cbn [val_ cells].
    destruct k; simpl in Hk; inversion Hk; subst f; clear Hk;
      cbn [exec set add sub inc dec val_];
      rewrite write_tlStats_cells, ?tlStats_read; reflexivity.
Qed.

Lemma exec_throws tid k c : cell_update k = None -> exec tid k c = c.
Proof. destruct k; simpl; intros Hk; try discriminate; reflexivity. Qed.

Lemma read_insert_ne tid tid' v s :
  tid <> tid' ->
  read tid' (FastStats.mk (base s) (<[tid := v]> (cells s))) = read tid' s.
Proof.
  intros Hne. rewrite !read_default. cbn [cells].
  rewrite lookup_insert_ne by exact Hne. reflexivity.
Qed.

Lemma get_in_range c : wf c -> in_range 64 (get c).
Proof. intros Hc. rewrite (get_sum c Hc). apply wrap64_in_range. Qed.

Lemma run_cons tid k evs c : run ((tid, k) :: evs) c = run evs (exec tid k c).
Proof. reflexivity. Qed.

Lemma run_wf_tl evs : forall c, wf c -> wf (run evs c).
Proof.
  induction evs as [| [tid k] evs IH]; intros c Hc; [exact Hc |].
  rewrite run_cons. apply IH, exec_wf, Hc.
Qed.

Lemma get_of_update tid u c :
  wf c -> get (exec tid (of_update u) c) = wrap64 (get c + Updates.delta u).
Proof.
  intros Hc. destruct u as [n | n]; simpl.
  - apply get_add, Hc.
  - rewrite get_sub by exact Hc. apply (f_equal (wrap 64)). lia.
Qed.

Lemma get_run_lift tus : forall c,
  wf c ->
  get (run (lift tus) c) = wrap64 (get c + Updates.delta_sum (snd <$> tus)).
Proof.
  induction tus as [| [tid u] tus IH]; intros c Hc.
  - simpl. rewrite Z.add_0_r. symmetry. apply wrap_small, get_in_range, Hc.
  - change (lift ((tid, u) :: tus)) with ((tid, of_update u) :: lift tus).
    rewrite run_cons, IH by apply exec_wf, Hc.
    rewrite get_of_update by exact Hc. unfold wrap64. rewrite wrap_add_l.
    apply (f_equal (wrap 64)).
    change (Updates.delta_sum (snd <$> (tid, u) :: tus))
      with (Updates.delta u + Updates.delta_sum (snd <$> tus)).
    lia.
Qed.

Lemma exec_cells_wf tid k c :
  cells_wf c -> args_in_range k -> cells_wf (exec tid k c).
Proof.
  intros Hc Hk. destruct (cell_update k) as [f |] eqn:Hf.
  - rewrite (exec_cell_update tid k f c Hf). intros tid' v.
    unfold cell. cbn [val_ cells].
    destruct (decide (tid = tid')) as [-> | Hne].
    + rewrite lookup_insert_eq. intros [= <-].
      destruct k; simpl in Hf; inversion Hf; subst f;
        try apply wrap64_in_range; exact Hk.
    + rewrite lookup_insert_ne by exact Hne. apply Hc.
  - rewrite exec_throws by exact Hf. exact Hc.
Qed.

End TLCounterAlgebra.

(** X9: calls made by two different threads commute: whatever the two
    methods are, [set] included, the counter after both calls is the same
    in either order. *)
Theorem distinct_threads_commute (tid1 tid2 : nat) (k1 k2 : TLCounter.call)
    (c : TLCounter.t) :
  tid1 <> tid2 ->
  TLCounter.exec tid1 k1 (TLCounter.exec tid2 k2 c)
  = TLCounter.exec tid2 k2 (TLCounter.exec tid1 k1 c).
Proof.
  intros Hne.
  destruct (TLTrace.cell_update k1) as [f1 |] eqn:H1;
    destruct (TLTrace.cell_update k2) as [f2 |] eqn:H2.
  - rewrite (exec_cell_update tid2 k2 f2 c H2), (exec_cell_update tid1 k1 f1 c H1).
    rewrite (exec_cell_update tid1 k1 f1 _ H1), (exec_cell_update tid2 k2 f2 _ H2).
    cbn [TLCounter.val_ FastStats.base FastStats.cells].
    rewrite (read_insert_ne tid2 tid1) by congruence.
    rewrite (read_insert_ne tid1 tid2) by congruence.
    do 2 f_equal. apply insert_insert_ne. congruence.
  - rewrite !(exec_throws tid2 k2) by exact H2. reflexivity.
  - rewrite !(exec_throws tid1 k1) by exact H1. reflexivity.
  - rewrite !(exec_throws tid1 k1) by exact H1. reflexivity.
Qed.

Lemma distinct_threads_commute_witness :
  0%nat <> 1%nat
  /\ TLCounter.exec 0 (TLCounter.Set_ 7)
       (TLCounter.exec 1 TLCounter.Dec (TLCounter.init 4))
     = TLCounter.exec 1 TLCounter.Dec
         (TLCounter.exec 0 (TLCounter.Set_ 7) (TLCounter.init 4)).
Proof.
  assert (Hne : 0%nat <> 1%nat) by discriminate.
  split; [exact Hne |].
  apply (distinct_threads_commute 0 1 (TLCounter.Set_ 7) TLCounter.Dec _ Hne).
Defined.

(** X10: [set(n)] overrides whatever the same thread did just before:
    the counter after any call by a thread followed by [set(n)] from that
    thread is the counter after [set(n)] alone. *)
Theorem set_overrides_own_call (tid : nat) (n : Z) (k : TLCounter.call)
    (c : TLCounter.t) :
  TLCounter.set tid n (TLCounter.exec tid k c) = TLCounter.set tid n c.
Proof.
  destruct (TLTrace.cell_update k) as [f |] eqn:Hk.
  - change (TLCounter.set tid n) with (TLCounter.exec tid (TLCounter.Set_ n)).
    rewrite (exec_cell_update tid k f c Hk).
    rewrite !(exec_cell_update tid (TLCounter.Set_ n) (fun _ => n)) by reflexivity.
    cbn [TLCounter.val_ FastStats.base FastStats.cells].
    do 2 f_equal. apply insert_insert_eq.
  - rewrite (exec_throws tid k c Hk). reflexivity.
Qed.

(** X11: for every sequence of [add] and [sub] calls on a [TLCounter],
    whichever threads make them, [get()] afterwards is [get()] before plus
    the signed sum of the deltas modulo [2^64], and it is the same for
    every reordering of the calls. *)
Theorem tl_add_sub_sequence_sum (tus : list (nat * Updates.update))
    (c : TLCounter.t) :
  TLCounter.wf c ->
  TLCounter.get (TLCounter.run (TLTrace.lift tus) c)
  = FastStats.wrap64 (TLCounter.get c + Updates.delta_sum (snd <$> tus))
  /\ forall tus', Permutation tus tus' ->
       TLCounter.get (TLCounter.run (TLTrace.lift tus') c)
       = TLCounter.get (TLCounter.run (TLTrace.lift tus) c).
Proof.
  intros Hc. split; [apply get_run_lift, Hc |].
  intros tus' Hp. rewrite !get_run_lift by exact Hc.
  rewrite (delta_sum_perm (snd <$> tus) (snd <$> tus')); [reflexivity |].
  apply fmap_Permutation, Hp.
Qed.

Lemma tl_add_sub_sequence_sum_witness :
  TLCounter.wf (TLCounter.init 18446744073709551615)
  /\ TLCounter.get
       (TLCounter.run
          (TLTrace.lift [(0%nat, Updates.Add 5); (1%nat, Updates.Sub 2);
                         (0%nat, Updates.Sub 1)])
          (TLCounter.init 18446744073709551615)) = 1.
Proof.
  assert (Hwf : TLCounter.wf (TLCounter.init 18446744073709551615))
    by (vm_compute; split; [discriminate | reflexivity]).
  split; [exact Hwf |].
  destruct (tl_add_sub_sequence_sum
              [(0%nat, Updates.Add 5); (1%nat, Updates.Sub 2); (0%nat, Updates.Sub 1)]
              _ Hwf) as [Hget _].
  rewrite Hget. reflexivity.
Defined.

(** X12: started from the same value, a [TLCounter] and an
    [AtomicCounter] (64 bits) that receive the same sequence of [add] and
    [sub] calls return the same [get()], whichever threads make the calls
    on the [TLCounter]. *)
Theorem tlcounter_agrees_with_atomic (tus : list (nat * Updates.update))
    (b : Z) :
  UInt.in_range 64 b ->
  TLCounter.get (TLCounter.run (TLTrace.lift tus) (TLCounter.init b))
  = AtomicCounterT.get
      (Updates.run AtomicCounter_width (snd <$> tus) (AtomicCounterT.init b)).
Proof.
  intros Hb. rewrite get_run_lift, get_init by exact Hb.
  symmetry. apply (run_val 64 (snd <$> tus) (AtomicCounterT.init b)). exact Hb.
Qed.

Lemma tlcounter_agrees_with_atomic_witness :
  UInt.in_range 64 3
  /\ TLCounter.get
       (TLCounter.run (TLTrace.lift [(0%nat, Updates.Sub 5); (1%nat, Updates.Add 1)])
          (TLCounter.init 3))
     = AtomicCounterT.get
         (Updates.run 64 [Updates.Sub 5; Updates.Add 1] (AtomicCounterT.init 3)).
Proof.
  assert (Hb : UInt.in_range 64 3)
    by (vm_compute; split; [discriminate | reflexivity]).
  split; [exact Hb |].
  apply (tlcounter_agrees_with_atomic
           [(0%nat, Updates.Sub 5); (1%nat, Updates.Add 1)] 3 Hb).
Defined.

(** X13: when the base and every cell of a [TLCounter] are [uint64_t]
    values, they still are after any sequence of calls with [uint64_t]
    arguments, and [get()] returns a [uint64_t] value. *)
Theorem tl_values_stay_in_range (evs : list (nat * TLCounter.call))
    (c : TLCounter.t) :
  TLCounter.wf c -> TLTrace.cells_wf c ->
  Forall (fun ev => TLTrace.args_in_range (snd ev)) evs ->
  TLCounter.wf (TLCounter.run evs c)
  /\ TLTrace.cells_wf (TLCounter.run evs c)
  /\ UInt.in_range 64 (TLCounter.get (TLCounter.run evs c)).
Proof.
  intros Hc Hcells Hargs.
  assert (Hwf : TLCounter.wf (TLCounter.run evs c)) by apply run_wf_tl, Hc.
  split; [exact Hwf |]. split; [| apply get_in_range, Hwf].
  clear Hwf Hc. revert c Hcells.
  induction Hargs as [| [tid k] evs Hk _ IH]; intros c Hcells; [exact Hcells |].
  rewrite run_cons. apply IH, exec_cells_wf; [exact Hcells | exact Hk].
Qed.

Lemma tl_values_stay_in_range_witness :
  TLCounter.wf (TLCounter.init 0)
  /\ TLTrace.cells_wf (TLCounter.init 0)
  /\ UInt.in_range 64
       (TLCounter.get
          (TLCounter.run [(0%nat, TLCounter.Dec); (1%nat, TLCounter.Dec)]
             (TLCounter.init 0))).
Proof.
  assert (Hwf : TLCounter.wf (TLCounter.init 0))
    by (vm_compute; split; [discriminate | reflexivity]).
  assert (Hcells : TLTrace.cells_wf (TLCounter.init 0))
    by (intros tid v Hlook; discriminate Hlook).
  split; [exact Hwf |]. split; [exact Hcells |].
  apply (tl_values_stay_in_range
           [(0%nat, TLCounter.Dec); (1%nat, TLCounter.Dec)] _ Hwf Hcells).
  repeat constructor.
Defined.

(** X14: a [compare_exchange_strong] whose [expected] is the value the
    counter holds and whose [desired] is that value plus [n], taken in
    [T], succeeds and leaves the counter that [add(n)] leaves; one whose
    [expected] is anything else leaves the counter that no call leaves. *)
Theorem cas_increment_is_add (w : N) (n e : Z) (c : AtomicCounterT.t) :
  (e = AtomicCounterT.get c ->
     AtomicCounterT.compare_exchange_strong e (UInt.wrap w (e + n)) c
     = (true, e, AtomicCounterT.add w n c))
  /\ (e <> AtomicCounterT.get c ->
     snd (AtomicCounterT.compare_exchange_strong e (UInt.wrap w (e + n)) c) = c
     /\ fst (fst (AtomicCounterT.compare_exchange_strong e (UInt.wrap w (e + n)) c))
        = false).
Proof.
  split.
  - intros ->. rewrite cas_success by reflexivity. reflexivity.
  - intros Hne. rewrite cas_failure by congruence. split; reflexivity.
Qed.

Lemma cas_increment_is_add_witness :
  AtomicCounterT.compare_exchange_strong 4294967295
    (UInt.wrap 32 (4294967295 + 1)) (AtomicCounterT.init 4294967295)
  = (true, 4294967295, AtomicCounterT.init 0)
  /\ snd (AtomicCounterT.compare_exchange_strong 5
            (UInt.wrap 32 (5 + 1)) (AtomicCounterT.init 4294967295))
     = AtomicCounterT.init 4294967295.
Proof.
  split.
  - apply (cas_increment_is_add 32 1 4294967295 (AtomicCounterT.init 4294967295)).
    reflexivity.
  - apply (cas_increment_is_add 32 1 5 (AtomicCounterT.init 4294967295)).
    vm_compute. discriminate.
Defined.
